(** * The primitive commands of the Atomix command line client

    A shallow embedding of [cli/commands/lock.py], [cli/commands/election.py]
    and [cli/commands/map.py]: the completion resources ([suggest],
    [complete]) and the actions ([execute]) of the lock, election and map
    primitives, followed by the properties the specification states about
    them.

    The commands are glue around three things they do not define: Python's
    string methods, the [cli.path] helper of the package, and the remote
    service reached through the [requests] library.  These are gathered in
    the [Platform] class below; everything else is translated from the three
    source files. *)

From Stdlib Require Import String Ascii NArith ZArith Bool Lia List.
Import ListNotations.

Local Open Scope Z_scope.

(** ** Python values *)

(** A Python string is a sequence of Unicode code points; [len] is [length]
    and the slice [s[n:]] is [skipn n s]. *)
Definition codepoint := N.
Definition str := list codepoint.

(** The string literals of the sources are ASCII. *)
Definition lit (s : string) : str :=
  List.map N_of_ascii (list_ascii_of_string s).
Arguments lit s%_string : simpl never.

Fixpoint str_eqb (a b : str) : bool :=
  match a, b with
  | [], [] => true
  | c :: a', d :: b' => N.eqb c d && str_eqb a' b'
  | _, _ => false
  end.

(** [s.startswith(p)] *)
Fixpoint startswith (s p : str) {struct p} : bool :=
  match p with
  | [] => true
  | c :: p' =>
      match s with
      | [] => false
      | d :: s' => N.eqb c d && startswith s' p'
      end
  end.

#[local] Set Warnings "-register-all".

(** What [response.json()] can decode to.  Numbers are kept as their
    literal: no command looks inside one. *)
Inductive pyval : Type :=
| PNone
| PBool (b : bool)
| PNum (literal : str)
| PStr (s : str)
| PList (items : list pyval)
| PDict (entries : list (str * pyval)).

(** The exceptions that can leave a command. *)
Inductive exn : Type :=
| ConnectionError   (* raised by requests when the service is unreachable *)
| ValueError        (* raised by response.json() on a body that is not JSON *)
| TypeError         (* iterating over a value that is not iterable *)
| AttributeError.   (* calling .lower() on a value that is not a string *)

Inductive result (A : Type) : Type :=
| Ok (a : A)
| Raise (e : exn).
Arguments Ok {A} a.
Arguments Raise {A} e.

(** ** HTTP requests and responses, as the commands see them *)

Inductive verb : Type := GET | POST | PUT | DELETE.

(** The arguments of one call of [requests.get], [requests.post],
    [requests.put] or [requests.delete]: the URL, the [headers=] keyword and
    the [data=] keyword (the request body), each absent unless the caller
    passes it. *)
Record Request : Type := mkRequest {
  method : verb;
  url : str;
  headers : list (str * str);
  data : option str
}.

(** The attributes of a response the commands read: [status_code], [text],
    and the outcome of calling [json()]. *)
Record Response : Type := mkResponse {
  status_code : Z;
  text : str;
  json : result pyval
}.

(** Keyword arguments, in the order they are written at the call. *)
Definition kwargs := list (str * str).

(** ** Effects

    A command is run for its effects: the HTTP call it makes, the calls of
    [response.json()], what it prints and, for a generator, what it yields.
    A run is the trace of these events together with the value returned or
    the exception raised. *)
Inductive event : Type :=
| Http (req : Request)
| JsonDecode
| Print (v : pyval)
| Yield (v : pyval).

Definition M (A : Type) : Type := (list event * result A)%type.

Definition ret {A : Type} (a : A) : M A := ([], Ok a).

Definition raise {A : Type} (e : exn) : M A := ([], Raise e).

Definition bind {A B : Type} (m : M A) (k : A -> M B) : M B :=
  match m with
  | (t, Ok a) => let (t', r) := k a in (t ++ t', r)
  | (t, Raise e) => (t, Raise e)
  end.

Declare Scope cmd_scope.
Delimit Scope cmd_scope with cmd.
Notation "x <- m ;; k" := (bind m (fun x => k))
  (at level 61, m at next level, right associativity) : cmd_scope.
Notation "m ;; k" := (bind m (fun _ => k))
  (at level 61, right associativity) : cmd_scope.
Local Open Scope cmd_scope.

Definition emit (e : event) : M unit := ([e], Ok tt).

Definition lift {A : Type} (r : result A) : M A := ([], r).

Definition trace {A : Type} (m : M A) : list event := fst m.
Definition outcome {A : Type} (m : M A) : result A := snd m.

(** The arguments of the [print] calls of a run, in order. *)
Fixpoint printed (t : list event) : list pyval :=
  match t with
  | [] => []
  | Print v :: t' => v :: printed t'
  | _ :: t' => printed t'
  end.

(** The values a generator yields, in order. *)
Fixpoint yielded (t : list event) : list pyval :=
  match t with
  | [] => []
  | Yield v :: t' => v :: yielded t'
  | _ :: t' => yielded t'
  end.

(** The HTTP calls of a run, in order. *)
Fixpoint requested (t : list event) : list Request :=
  match t with
  | [] => []
  | Http r :: t' => r :: requested t'
  | _ :: t' => requested t'
  end.

(** Whether a run called [response.json()]. *)
Definition decodes_json (t : list event) : bool :=
  existsb (fun e => match e with JsonDecode => true | _ => false end) t.

(** ** The platform the commands run on *)

Class Platform : Type := {
  (** Python's [str.lower].  Its Unicode case tables are outside the
      repository (it depends on context and may change the length of a
      string), so it is kept abstract. *)
  lower : str -> str;
  (** [self.cli.path(template, **kwargs)], defined in the package's
      [__init__] module, which is not among the sources. *)
  cli_path : str -> kwargs -> str;
  (** The remote service as reached through [requests]: the response to a
      request, or the transport error [requests] raises. *)
  server : Request -> result Response
}.

(** [str.lower] on ASCII strings, where it maps [A-Z] to [a-z]
    code point by code point. *)
Definition ascii_lower (s : str) : str :=
  List.map (fun c => if (N.leb 65 c && N.leb c 90)%bool then (c + 32)%N else c) s.

(** The value of a keyword argument (the empty string when it is absent). *)
Fixpoint kw_lookup (field : str) (kw : kwargs) : str :=
  match kw with
  | [] => []
  | (k, v) :: kw' => if str_eqb k field then v else kw_lookup field kw'
  end.

(** Copies [template], replacing each [{field}]; [field] holds the reversed
    name being read between the braces. *)
Fixpoint format_fields (template : str) (field : option str) (kw : kwargs) : str :=
  match template with
  | [] => []
  | c :: rest =>
      match field with
      | None =>
          if N.eqb c 123 (* { *) then format_fields rest (Some []) kw
          else c :: format_fields rest None kw
      | Some acc =>
          if N.eqb c 125 (* } *) then kw_lookup (rev acc) kw ++ format_fields rest None kw
          else format_fields rest (Some (c :: acc)) kw
      end
  end.

(** Modelled from the spec: [cli.path], whose definition is missing.  The
    Path column of the specification writes a URL as the template with each
    [{field}] replaced by the keyword argument of that name; keyword
    arguments the template does not mention are not used.  The properties
    below hold for every [cli_path]; this one serves the concrete runs. *)
Definition format_path (template : str) (kw : kwargs) : str :=
  format_fields template None kw.

(** A platform for concrete runs: ASCII names, [format_path], and a service
    that answers every request in the same way. *)
Definition answering (r : result Response) : Platform :=
  {| lower := ascii_lower; cli_path := format_path; server := fun _ => r |}.

(** ** The commands *)

Section Commands.

Context {platform : Platform}.

(** The four entry points of [requests] the commands use.  [headers] and
    [body] are the [headers=] and [data=] keywords of the call. *)
Definition send (req : Request) : M Response := ([Http req], server req).

Definition requests_get (u : str) : M Response :=
  send (mkRequest GET u [] None).

Definition requests_post (u : str) : M Response :=
  send (mkRequest POST u [] None).

Definition requests_delete (u : str) : M Response :=
  send (mkRequest DELETE u [] None).

Definition requests_put (u : str) (body : option str) (hdrs : list (str * str))
  : M Response :=
  send (mkRequest PUT u hdrs body).

(** [response.json()] *)
Definition response_json (response : Response) : M pyval :=
  ([JsonDecode], json response).

(** [print(v)] *)
Definition print (v : pyval) : M unit := emit (Print v).

(** [for x in v]: the items a [for] loop draws from a decoded value. *)
Definition iterate (v : pyval) : M (list pyval) :=
  match v with
  | PList items => ret items
  | PDict entries => ret (List.map (fun e => PStr (fst e)) entries)
  | PStr s => ret (List.map (fun c => PStr [c]) s)
  | PNone | PBool _ | PNum _ => raise TypeError
  end.

(** *** Resources (completion of names and keys) *)

(** The five resource classes that define [suggest] and [complete].
    [CandidateResource] and [KeyResource] receive the name of the election
    or map as the first argument of their methods.  ([TextResource] in
    [map.py] has an empty body: it reads no collection and defines neither
    method.) *)
Inductive resource : Type :=
| LockResource
| ElectionResource
| MapResource
| CandidateResource (name : str)
| KeyResource (name : str).

(** The collection each resource reads:
    [_get_lock_names], [_get_election_names], [_get_map_names],
    [_get_candidates] and [_get_map_keys] call [requests.get] on it. *)
Definition collection_url (r : resource) : str :=
  match r with
  | LockResource => cli_path (lit "/v1/primitives/locks") []
  | ElectionResource => cli_path (lit "/v1/primitives/elections") []
  | MapResource => cli_path (lit "/v1/primitives/maps") []
  | CandidateResource name =>
      cli_path (lit "/v1/primitives/elections/{name}") [(lit "name", name)]
  | KeyResource name =>
      cli_path (lit "/v1/primitives/maps/{name}/keys") [(lit "name", name)]
  end.

(** [_get_lock_names] and its four siblings: the same three lines. *)
Definition get_names (r : resource) : M pyval :=
  response <- requests_get (collection_url r) ;;
  if status_code response =? 200 then response_json response
  else ret (PList []).

(** The loop of [suggest]:
      for lock in locks:
          if lock.lower().startswith(prefix.lower()):
              return lock[len(prefix):]
      return None *)
Fixpoint suggest_loop (prefix : str) (items : list pyval) : M (option str) :=
  match items with
  | [] => ret None
  | item :: rest =>
      match item with
      | PStr name =>
          if startswith (lower name) (lower prefix)
          then ret (Some (skipn (length prefix) name))
          else suggest_loop prefix rest
      | _ => raise AttributeError
      end
  end.

Definition suggest (r : resource) (prefix : str) : M (option str) :=
  names <- get_names r ;;
  items <- iterate names ;;
  suggest_loop prefix items.

(** The loop of the generator [complete]:
      for lock in locks:
          if lock.lower().startswith(prefix.lower()):
              yield lock *)
Fixpoint complete_loop (prefix : str) (items : list pyval) : M unit :=
  match items with
  | [] => ret tt
  | item :: rest =>
      match item with
      | PStr name =>
          if startswith (lower name) (lower prefix)
          then emit (Yield (PStr name)) ;; complete_loop prefix rest
          else complete_loop prefix rest
      | _ => raise AttributeError
      end
  end.

(** [complete], consumed to its end. *)
Definition complete (r : resource) (prefix : str) : M unit :=
  names <- get_names r ;;
  items <- iterate names ;;
  complete_loop prefix items.

(** *** Actions (one HTTP call each) *)

(** The fourteen action classes with the arguments of their [execute]. *)
Inductive action : Type :=
(* election.py *)
| RunAction (name : str)
| LeaderAction (name : str)
| ListenAction (name id : str)
| WithdrawAction (name id : str)
| AnointAction (name id : str)
| PromoteAction (name id : str)
| EvictAction (name id : str)
(* lock.py *)
| LockAction (name : str)
| UnlockAction (name : str)
(* map.py *)
| GetAction (name key : str)
| PutAction (name key value : str)
| RemoveAction (name key : str)
| SizeAction (name : str)
| ClearAction (name : str).

(** [execute], class by class. *)
Definition execute (a : action) : M unit :=
  match a with
  | RunAction name =>
      response <- requests_post
        (cli_path (lit "/v1/primitives/elections/{name}") [(lit "name", name)]) ;;
      if status_code response =? 200 then
        v <- response_json response ;; print v
      else print (PStr (lit "Failed to enter election"))
  | LeaderAction name =>
      response <- requests_get
        (cli_path (lit "/v1/primitives/elections/{name}") [(lit "name", name)]) ;;
      if status_code response =? 200 then
        v <- response_json response ;; print v
      else print (PStr (lit "Failed to find leader"))
  | ListenAction name id =>
      response <- requests_get
        (cli_path (lit "/v1/primitives/elections/{name}/{id}")
           [(lit "name", name); (lit "id", id)]) ;;
      if status_code response =? 200 then
        v <- response_json response ;; print v
      else print (PStr (lit "Failed to listen for election"))
  | WithdrawAction name id =>
      response <- requests_delete
        (cli_path (lit "/v1/primitives/elections/{name}/{id}")
           [(lit "name", name); (lit "id", id)]) ;;
      if negb (status_code response =? 200) then
        print (PStr (lit "Failed to withdraw from election"))
      else ret tt
  | AnointAction name id =>
      response <- requests_post
        (cli_path (lit "/v1/primitives/elections/{name}/{id}/anoint")
           [(lit "name", name); (lit "id", id)]) ;;
      if negb (status_code response =? 200) then
        print (PStr (lit "Failed to anoint leader"))
      else ret tt
  | PromoteAction name id =>
      response <- requests_post
        (cli_path (lit "/v1/primitives/elections/{name}/{id}/promote")
           [(lit "name", name); (lit "id", id)]) ;;
      if negb (status_code response =? 200) then
        print (PStr (lit "Failed to promote candidate"))
      else ret tt
  | EvictAction name id =>
      response <- requests_post
        (cli_path (lit "/v1/primitives/elections/{name}/{id}/evict")
           [(lit "name", name); (lit "id", id)]) ;;
      if negb (status_code response =? 200) then
        print (PStr (lit "Failed to evict candidate"))
      else ret tt
  | LockAction name =>
      response <- requests_post
        (cli_path (lit "/v1/primitives/locks/{name}") [(lit "name", name)]) ;;
      if status_code response =? 200 then
        v <- response_json response ;; print v
      else print (PStr (lit "Failed to acquire lock"))
  | UnlockAction name =>
      response <- requests_delete
        (cli_path (lit "/v1/primitives/locks/{name}") [(lit "name", name)]) ;;
      if status_code response =? 200 then
        v <- response_json response ;; print v
      else print (PStr (lit "Failed to release lock"))
  | GetAction name key =>
      response <- requests_get
        (cli_path (lit "/v1/primitives/maps/{name}/{key}")
           [(lit "name", name); (lit "key", key)]) ;;
      if status_code response =? 200 then
        if negb (str_eqb (text response) (lit "")) then
          v <- response_json response ;; print v
        else ret tt
      else print (PStr (lit "Failed to get from map"))
  | PutAction name key value =>
      (* [value] is handed to [cli.path] together with [name] and [key];
         [requests.put] receives the URL and [headers=] only. *)
      response <- requests_put
        (cli_path (lit "/v1/primitives/maps/{name}/{key}")
           [(lit "name", name); (lit "key", key); (lit "value", value)])
        None
        [(lit "content-type", lit "text/plain")] ;;
      if status_code response =? 200 then
        if negb (str_eqb (text response) (lit "")) then
          v <- response_json response ;; print v
        else ret tt
      else print (PStr (lit "Failed to put to map"))
  | RemoveAction name key =>
      response <- requests_delete
        (cli_path (lit "/v1/primitives/maps/{name}/{key}")
           [(lit "name", name); (lit "key", key)]) ;;
      if status_code response =? 200 then
        if negb (str_eqb (text response) (lit "")) then
          v <- response_json response ;; print v
        else ret tt
      else print (PStr (lit "Failed to remove key"))
  | SizeAction name =>
      response <- requests_get
        (cli_path (lit "/v1/primitives/maps/{name}/size") [(lit "name", name)]) ;;
      if status_code response =? 200 then
        v <- response_json response ;; print v
      else print (PStr (lit "Failed to read map"))
  | ClearAction name =>
      response <- requests_delete
        (cli_path (lit "/v1/primitives/maps/{name}") [(lit "name", name)]) ;;
      if negb (status_code response =? 200) then
        print (PStr (lit "Failed to clear map"))
      else ret tt
  end.

(** The one call of [requests] each [execute] makes: the verb of the
    entry point, the URL built by [cli.path], and the keywords passed. *)
Definition action_request (a : action) : Request :=
  match a with
  | RunAction name =>
      mkRequest POST
        (cli_path (lit "/v1/primitives/elections/{name}") [(lit "name", name)])
        [] None
  | LeaderAction name =>
      mkRequest GET
        (cli_path (lit "/v1/primitives/elections/{name}") [(lit "name", name)])
        [] None
  | ListenAction name id =>
      mkRequest GET
        (cli_path (lit "/v1/primitives/elections/{name}/{id}")
           [(lit "name", name); (lit "id", id)])
        [] None
  | WithdrawAction name id =>
      mkRequest DELETE
        (cli_path (lit "/v1/primitives/elections/{name}/{id}")
           [(lit "name", name); (lit "id", id)])
        [] None
  | AnointAction name id =>
      mkRequest POST
        (cli_path (lit "/v1/primitives/elections/{name}/{id}/anoint")
           [(lit "name", name); (lit "id", id)])
        [] None
  | PromoteAction name id =>
      mkRequest POST
        (cli_path (lit "/v1/primitives/elections/{name}/{id}/promote")
           [(lit "name", name); (lit "id", id)])
        [] None
  | EvictAction name id =>
      mkRequest POST
        (cli_path (lit "/v1/primitives/elections/{name}/{id}/evict")
           [(lit "name", name); (lit "id", id)])
        [] None
  | LockAction name =>
      mkRequest POST
        (cli_path (lit "/v1/primitives/locks/{name}") [(lit "name", name)])
        [] None
  | UnlockAction name =>
      mkRequest DELETE
        (cli_path (lit "/v1/primitives/locks/{name}") [(lit "name", name)])
        [] None
  | GetAction name key =>
      mkRequest GET
        (cli_path (lit "/v1/primitives/maps/{name}/{key}")
           [(lit "name", name); (lit "key", key)])
        [] None
  | PutAction name key value =>
      mkRequest PUT
        (cli_path (lit "/v1/primitives/maps/{name}/{key}")
           [(lit "name", name); (lit "key", key); (lit "value", value)])
        [(lit "content-type", lit "text/plain")] None
  | RemoveAction name key =>
      mkRequest DELETE
        (cli_path (lit "/v1/primitives/maps/{name}/{key}")
           [(lit "name", name); (lit "key", key)])
        [] None
  | SizeAction name =>
      mkRequest GET
        (cli_path (lit "/v1/primitives/maps/{name}/size") [(lit "name", name)])
        [] None
  | ClearAction name =>
      mkRequest DELETE
        (cli_path (lit "/v1/primitives/maps/{name}") [(lit "name", name)])
        [] None
  end.

End Commands.

(** *** Tables over the actions *)

(** The string each [execute] passes to [print] in its failure branch. *)
Definition failure_message (a : action) : str :=
  match a with
  | RunAction _ => lit "Failed to enter election"
  | LeaderAction _ => lit "Failed to find leader"
  | ListenAction _ _ => lit "Failed to listen for election"
  | WithdrawAction _ _ => lit "Failed to withdraw from election"
  | AnointAction _ _ => lit "Failed to anoint leader"
  | PromoteAction _ _ => lit "Failed to promote candidate"
  | EvictAction _ _ => lit "Failed to evict candidate"
  | LockAction _ => lit "Failed to acquire lock"
  | UnlockAction _ => lit "Failed to release lock"
  | GetAction _ _ => lit "Failed to get from map"
  | PutAction _ _ _ => lit "Failed to put to map"
  | RemoveAction _ _ => lit "Failed to remove key"
  | SizeAction _ => lit "Failed to read map"
  | ClearAction _ => lit "Failed to clear map"
  end.

(** The verb of the three operations the specification's table groups in one
    row, "anoint/promote/evict". *)
Definition candidate_verb (a : action) : option str :=
  match a with
  | AnointAction _ _ => Some (lit "anoint")
  | PromoteAction _ _ => Some (lit "promote")
  | EvictAction _ _ => Some (lit "evict")
  | _ => None
  end.

(** The "Failure print" column of the specification's table, row by row;
    the anoint/promote/evict row reads "Failed to {verb}".  This table
    follows the specification, [failure_message] follows the code. *)
Definition documented_failure (a : action) : str :=
  match a with
  | RunAction _ => lit "Failed to enter election"
  | LeaderAction _ => lit "Failed to find leader"
  | ListenAction _ _ => lit "Failed to listen for election"
  | WithdrawAction _ _ => lit "Failed to withdraw from election"
  | AnointAction _ _ => lit "Failed to " ++ lit "anoint"
  | PromoteAction _ _ => lit "Failed to " ++ lit "promote"
  | EvictAction _ _ => lit "Failed to " ++ lit "evict"
  | LockAction _ => lit "Failed to acquire lock"
  | UnlockAction _ => lit "Failed to release lock"
  | GetAction _ _ => lit "Failed to get from map"
  | PutAction _ _ _ => lit "Failed to put to map"
  | RemoveAction _ _ => lit "Failed to remove key"
  | SizeAction _ => lit "Failed to read map"
  | ClearAction _ => lit "Failed to clear map"
  end.

(** The operations the table marks "(silent)" on success. *)
Definition silent_on_success (a : action) : bool :=
  match a with
  | WithdrawAction _ _ | AnointAction _ _ | PromoteAction _ _
  | EvictAction _ _ | ClearAction _ => true
  | _ => false
  end.

(** The map operations that look at the response text before decoding. *)
Definition checks_text (a : action) : bool :=
  match a with
  | GetAction _ _ | PutAction _ _ _ | RemoveAction _ _ => true
  | _ => false
  end.

(** The case-insensitive prefix test of the two loops. *)
Definition matches {platform : Platform} (prefix name : str) : bool :=
  startswith (lower name) (lower prefix).

(** A resource "fetches the names [L]": its collection answers with status
    200 and a JSON list of exactly these strings. *)
Definition fetches {platform : Platform} (r : resource) (L : list str) : Prop :=
  exists response,
    server (mkRequest GET (collection_url r) [] None) = Ok response /\
    status_code response = 200 /\
    json response = Ok (PList (List.map PStr L)).

(** [str.lower] agrees with [ascii_lower] on ASCII strings, as Python's
    does. *)
Definition lowers_ascii {platform : Platform} : Prop :=
  forall s, Forall (fun c => (c < 128)%N) s -> lower s = ascii_lower s.

(** The response used in the concrete runs of the completion: status 200
    and a JSON list of names. *)
Definition names_response (L : list str) : Response :=
  {| status_code := 200; text := []; json := Ok (PList (List.map PStr L)) |}.

(** A response with a given status, an empty text and no JSON in it. *)
Definition status_response (code : Z) : Response :=
  {| status_code := code; text := []; json := Raise ValueError |}.

(** ** Notions used by the further properties *)

(** The collection of a resource answers with status 200 and a body that
    [response.json()] decodes to [v], whatever kind of value [v] is. *)
Definition decoded {platform : Platform} (r : resource) (v : pyval) : Prop :=
  exists response,
    server (mkRequest GET (collection_url r) [] None) = Ok response /\
    status_code response = 200 /\
    json response = Ok v.

Definition is_str (v : pyval) : bool :=
  match v with
  | PStr _ => true
  | _ => false
  end.

(** The strings at the front of a list of items, up to the first item that
    is not a string: the items on which [.lower()] succeeds before a loop
    stops. *)
Fixpoint leading_names (items : list pyval) : list str :=
  match items with
  | PStr name :: rest => name :: leading_names rest
  | _ => []
  end.

(** The decoded values a [for] loop can draw items from. *)
Definition iterable (v : pyval) : bool :=
  match v with
  | PList _ | PDict _ | PStr _ => true
  | PNone | PBool _ | PNum _ => false
  end.

(** The actions whose success branch is [print(response.json())] with no
    look at [response.text]. *)
Definition json_printing (a : action) : bool :=
  match a with
  | RunAction _ | LeaderAction _ | ListenAction _ _
  | LockAction _ | UnlockAction _ | SizeAction _ => true
  | _ => false
  end.

(** A response with status 200 carrying a decoded JSON value. *)
Definition json_response (body : str) (v : pyval) : Response :=
  {| status_code := 200; text := body; json := Ok v |}.

(** * Properties *)

(** Unfolds one [execute] down to the answer of the service. *)
Ltac run_execute Hserver :=
  cbn [action_request] in Hserver;
  unfold execute, action_request, requests_get, requests_post, requests_put,
    requests_delete, send, response_json, print, emit, ret, bind;
  rewrite Hserver.

Section Properties.

Context {platform : Platform}.

(** ** Strings *)

Lemma startswith_spec (s p : str) :
  startswith s p = true <-> exists t, s = p ++ t.
Proof.
  revert s. induction p as [|c p IH]; intros s; simpl.
  - split; [intros _; now exists s | reflexivity].
  - destruct s as [|d s].
    + split; [discriminate | intros [t Ht]; discriminate].
    + rewrite andb_true_iff, N.eqb_eq, IH. split.
      * intros [-> [t ->]]. now exists t.
      * intros [t Ht]. injection Ht as -> ->. split; [reflexivity | now exists t].
Qed.

Lemma matches_spec (prefix name : str) :
  matches prefix name = true <-> exists t, lower name = lower prefix ++ t.
Proof. apply startswith_spec. Qed.

Lemma str_eqb_eq (a b : str) : str_eqb a b = true <-> a = b.
Proof.
  revert b. induction a as [|c a IH]; intros [|d b]; simpl;
    try (split; [discriminate | discriminate]).
  - split; reflexivity.
  - rewrite andb_true_iff, N.eqb_eq, IH. split.
    + now intros [-> ->].
    + intros H. injection H as -> ->. now split.
Qed.

(** Putting a prefix in front of what is left after dropping as many
    characters gives the name back exactly when the prefix is the
    beginning of the name, character for character. *)
Lemma prefix_app_skipn (p n : str) :
  p ++ skipn (length p) n = n <-> firstn (length p) n = p.
Proof.
  split; intros H.
  - destruct (Nat.le_gt_cases (length p) (length n)) as [Hle | Hgt].
    + pose proof (firstn_skipn (length p) n) as E.
      rewrite <- H in E at 3.
      apply app_inv_tail in E. exact E.
    + rewrite skipn_all2 in H by lia. rewrite app_nil_r in H. subst n. lia.
  - rewrite <- H at 1. apply firstn_skipn.
Qed.

(** ** The two loops on a list of names *)

Lemma suggest_loop_names (prefix : str) (L : list str) :
  suggest_loop prefix (map PStr L) =
  ret (option_map (skipn (length prefix)) (find (matches prefix) L)).
Proof.
  induction L as [|n L IH]; simpl.
  - reflexivity.
  - unfold matches at 1. destruct (startswith (lower n) (lower prefix)).
    + reflexivity.
    + exact IH.
Qed.

Lemma complete_loop_names (prefix : str) (L : list str) :
  complete_loop prefix (map PStr L) =
  (map (fun n => Yield (PStr n)) (filter (matches prefix) L), Ok tt).
Proof.
  induction L as [|n L IH]; simpl.
  - reflexivity.
  - unfold matches at 1. destruct (startswith (lower n) (lower prefix)).
    + rewrite IH. reflexivity.
    + exact IH.
Qed.

Lemma yielded_map_Yield (vs : list pyval) :
  yielded (map Yield vs) = vs.
Proof. induction vs as [|v vs IH]; simpl; [reflexivity | now rewrite IH]. Qed.

(** The first match of a list, spelled out. *)
Lemma find_first (f : str -> bool) (L : list str) (n : str) :
  find f L = Some n <->
  exists before after,
    L = before ++ n :: after /\ f n = true /\
    forall m, In m before -> f m = false.
Proof.
  revert n. induction L as [|x L IH]; intros n; simpl.
  - split; [discriminate | intros (b & a & E & _)]. now destruct b.
  - destruct (f x) eqn:Fx.
    + split.
      * intros [= ->]. exists [], L. repeat split; [exact Fx | intros m []].
      * intros (b & a & E & Fn & Hb). destruct b as [|y b]; simpl in E.
        -- now injection E as ->.
        -- injection E as -> _. rewrite (Hb y (or_introl eq_refl)) in Fx.
           discriminate.
    + rewrite IH. split.
      * intros (b & a & -> & Fn & Hb). exists (x :: b), a.
        repeat split; [exact Fn | intros m [<- | Hm]; [exact Fx | now apply Hb]].
      * intros (b & a & E & Fn & Hb). destruct b as [|y b]; simpl in E.
        -- injection E as -> _. rewrite Fn in Fx. discriminate.
        -- injection E as -> ->. exists b, a.
           repeat split; [exact Fn | intros m Hm; apply Hb; now right].
Qed.

Lemma find_filter_hd (f : str -> bool) (L : list str) :
  find f L = hd_error (filter f L).
Proof.
  induction L as [|x L IH]; simpl; [reflexivity|].
  destruct (f x); [reflexivity | exact IH].
Qed.

(** ** Fetching the names *)

Lemma get_names_fetched (r : resource) (L : list str) :
  fetches r L ->
  get_names r =
  ([Http (mkRequest GET (collection_url r) [] None); JsonDecode],
   Ok (PList (map PStr L))).
Proof.
  intros (response & Hs & Hc & Hj).
  unfold get_names, requests_get, send, bind. rewrite Hs, Hc. simpl.
  unfold response_json. rewrite Hj. reflexivity.
Qed.

Lemma get_names_not_200 (r : resource) (response : Response) :
  server (mkRequest GET (collection_url r) [] None) = Ok response ->
  status_code response <> 200 ->
  get_names r = ([Http (mkRequest GET (collection_url r) [] None)], Ok (PList [])).
Proof.
  intros Hs Hc. apply Z.eqb_neq in Hc.
  unfold get_names, requests_get, send, bind. rewrite Hs, Hc. reflexivity.
Qed.

Lemma suggest_fetched (r : resource) (prefix : str) (L : list str) :
  fetches r L ->
  suggest r prefix =
  ([Http (mkRequest GET (collection_url r) [] None); JsonDecode],
   Ok (option_map (skipn (length prefix)) (find (matches prefix) L))).
Proof.
  intros H. unfold suggest. rewrite (get_names_fetched r L H).
  unfold bind; simpl. rewrite suggest_loop_names. reflexivity.
Qed.

Lemma complete_fetched (r : resource) (prefix : str) (L : list str) :
  fetches r L ->
  complete r prefix =
  ([Http (mkRequest GET (collection_url r) [] None); JsonDecode]
     ++ map (fun n => Yield (PStr n)) (filter (matches prefix) L),
   Ok tt).
Proof.
  intros H. unfold complete. rewrite (get_names_fetched r L H).
  unfold bind; simpl. rewrite complete_loop_names. reflexivity.
Qed.

Lemma yielded_complete_fetched (r : resource) (prefix : str) (L : list str) :
  fetches r L ->
  yielded (trace (complete r prefix)) = map PStr (filter (matches prefix) L).
Proof.
  intros H. rewrite (complete_fetched r prefix L H). simpl.
  rewrite <- (map_map PStr Yield). apply yielded_map_Yield.
Qed.

(** ** Running an action *)

Lemma execute_requests (a : action) :
  requested (trace (execute a)) = [action_request a].
Proof.
  destruct a;
    unfold execute, action_request, requests_get, requests_post, requests_put,
      requests_delete, send, response_json, print, emit, ret, bind;
    match goal with
    | |- context [server ?q] => destruct (server q) as [response | e]
    end; try reflexivity;
    destruct (status_code response =? 200); cbn [negb];
    try reflexivity;
    try (destruct (negb (str_eqb (text response) (lit ""))));
    try reflexivity;
    destruct (json response); reflexivity.
Qed.

Lemma execute_not_200 (a : action) (response : Response) :
  server (action_request a) = Ok response ->
  status_code response <> 200 ->
  execute a =
  ([Http (action_request a); Print (PStr (failure_message a))], Ok tt).
Proof.
  intros Hs Hc. apply Z.eqb_neq in Hc.
  destruct a; run_execute Hs; rewrite Hc; reflexivity.
Qed.

(** With status 200 the event after the request, if any, is the call of
    [response.json()]. *)
Lemma execute_200 (a : action) (response : Response) :
  server (action_request a) = Ok response ->
  status_code response = 200 ->
  trace (execute a) = [Http (action_request a)] \/
  exists rest, trace (execute a) = Http (action_request a) :: JsonDecode :: rest.
Proof.
  intros Hs Hc. apply Z.eqb_eq in Hc.
  destruct a; run_execute Hs; rewrite Hc; cbn [negb];
    try (left; reflexivity);
    try (destruct (negb (str_eqb (text response) (lit ""))); [| left; reflexivity]);
    right; destruct (json response); eexists; reflexivity.
Qed.

Lemma execute_200_silent (a : action) (response : Response) :
  silent_on_success a = true ->
  server (action_request a) = Ok response ->
  status_code response = 200 ->
  execute a = ([Http (action_request a)], Ok tt).
Proof.
  intros Ha Hs Hc. apply Z.eqb_eq in Hc.
  destruct a; try discriminate Ha; run_execute Hs; rewrite Hc; reflexivity.
Qed.

Lemma execute_200_empty_text (a : action) (response : Response) :
  checks_text a = true ->
  server (action_request a) = Ok response ->
  status_code response = 200 ->
  text response = lit "" ->
  execute a = ([Http (action_request a)], Ok tt).
Proof.
  intros Ha Hs Hc Ht. apply Z.eqb_eq in Hc.
  destruct a; try discriminate Ha; run_execute Hs; rewrite Hc, Ht; reflexivity.
Qed.

(** A transport error raised by [requests] propagates out of every action:
    none catches it and nothing is printed. *)
Lemma execute_unreachable (a : action) (e : exn) :
  server (action_request a) = Raise e ->
  execute a = ([Http (action_request a)], Raise e).
Proof.
  intros Hs. destruct a; run_execute Hs; reflexivity.
Qed.

(** ** Completion *)

(** C1: for every prefix [P] and every list of names [L] fetched from the
    collection of a resource, [complete(P)] yields exactly the elements of
    [L] whose lowercased form starts with the lowercased [P], in the order of
    [L], and then ends normally. *)
Theorem complete_yields_matching_names
    (r : resource) (P : str) (L : list str) :
  fetches r L ->
  yielded (trace (complete r P)) =
    map PStr (filter (fun n => startswith (lower n) (lower P)) L)
  /\ outcome (complete r P) = Ok tt
  /\ (forall n, In (PStr n) (yielded (trace (complete r P))) <->
                In n L /\ exists t, lower n = lower P ++ t).
Proof.
  intros H. pose proof (yielded_complete_fetched r P L H) as Hy.
  split; [exact Hy | split].
  - rewrite (complete_fetched r P L H). reflexivity.
  - intros n. rewrite Hy, in_map_iff. split.
    + intros (m & [= ->] & Hm). apply filter_In in Hm.
      destruct Hm as [Hin Hm]. split; [exact Hin | now apply matches_spec].
    + intros [Hin Hm]. exists n. split; [reflexivity|].
      apply filter_In. split; [exact Hin | now apply matches_spec].
Qed.

(** C2: [suggest(P)] returns what follows the first [len(P)] characters of
    the first fetched name that matches [P] without regard to case, and
    [None] when no fetched name matches; with the names "a-lock", "b-lock"
    and the prefix "a" it returns "-lock". *)
Theorem suggest_first_match_suffix (r : resource) :
  (forall (P : str) (L : list str),
     fetches r L ->
     (forall n,
        find (matches P) L = Some n ->
        outcome (suggest r P) = Ok (Some (skipn (length P) n)) /\
        exists before after,
          L = before ++ n :: after /\
          (exists t, lower n = lower P ++ t) /\
          forall m, In m before -> matches P m = false) /\
     ((forall m, In m L -> matches P m = false) ->
      outcome (suggest r P) = Ok None) /\
     (outcome (suggest r P) = Ok None ->
      forall m, In m L -> matches P m = false))
  /\ (lowers_ascii ->
      fetches r [lit "a-lock"; lit "b-lock"] ->
      outcome (suggest r (lit "a")) = Ok (Some (lit "-lock"))).
Proof.
  split.
  - intros P L H. rewrite (suggest_fetched r P L H). cbn [outcome snd].
    split; [| split].
    + intros n Hn. rewrite Hn. split; [reflexivity|].
      apply find_first in Hn. destruct Hn as (b & a & E & Fn & Hb).
      exists b, a. split; [exact E | split; [now apply matches_spec | exact Hb]].
    + intros Hnone. destruct (find (matches P) L) as [n|] eqn:Hf; [| reflexivity].
      apply find_some in Hf. destruct Hf as [Hin Hm].
      rewrite (Hnone n Hin) in Hm. discriminate.
    + intros Ho. destruct (find (matches P) L) as [n|] eqn:Hf; [discriminate Ho|].
      exact (find_none _ _ Hf).
  - intros Hlow H. rewrite (suggest_fetched r _ _ H). cbn [outcome snd find].
    unfold matches.
    rewrite (Hlow (lit "a-lock")), (Hlow (lit "a"));
      [reflexivity | |]; vm_compute; repeat constructor.
Qed.

(** C9: on a fetched list of names, [suggest(P)] is [None] exactly when
    [complete(P)] yields nothing, and otherwise it is the first name
    [complete(P)] yields without its first [len(P)] characters. *)
Theorem suggest_agrees_with_complete
    (r : resource) (P : str) (L : list str) :
  fetches r L ->
  exists s,
    outcome (suggest r P) = Ok s /\
    (s = None <-> yielded (trace (complete r P)) = []) /\
    (forall suffix,
       s = Some suffix ->
       exists n rest,
         yielded (trace (complete r P)) = PStr n :: rest /\
         suffix = skipn (length P) n).
Proof.
  intros H. rewrite (suggest_fetched r P L H), (yielded_complete_fetched r P L H).
  eexists. split; [reflexivity|]. rewrite find_filter_hd.
  destruct (filter (matches P) L) as [|n ns]; simpl.
  - split; [split; reflexivity | discriminate].
  - split; [split; discriminate |]. intros suffix [= <-].
    exists n, (map PStr ns). split; reflexivity.
Qed.

(** C10: the suggestion for a matching name [n] is [n] without its first
    [len(P)] characters, in the characters of [n] itself; so [P] followed by
    the suggestion is [n] only when [P] equals the first [len(P)] characters
    of [n] exactly, and differs from [n] whenever the casing of [P] differs
    from them. *)
Theorem suggestion_keeps_fetched_casing
    (r : resource) (P : str) (L : list str) (n : str) :
  fetches r L ->
  find (matches P) L = Some n ->
  outcome (suggest r P) = Ok (Some (skipn (length P) n))
  /\ (P ++ skipn (length P) n = n <-> firstn (length P) n = P)
  /\ (firstn (length P) n <> P -> P ++ skipn (length P) n <> n).
Proof.
  intros H Hn. rewrite (suggest_fetched r P L H), Hn.
  split; [reflexivity | split].
  - apply prefix_app_skipn.
  - intros Hd E. apply Hd. now apply prefix_app_skipn.
Qed.

(** C7: when the collection of a resource answers with a status other than
    200, the names are the empty list: [suggest] returns [None], [complete]
    yields nothing, neither decodes the body and neither raises. *)
Theorem failed_fetch_gives_no_names
    (r : resource) (P : str) (response : Response) :
  server (mkRequest GET (collection_url r) [] None) = Ok response ->
  status_code response <> 200 ->
  outcome (get_names r) = Ok (PList [])
  /\ suggest r P = ([Http (mkRequest GET (collection_url r) [] None)], Ok None)
  /\ complete r P = ([Http (mkRequest GET (collection_url r) [] None)], Ok tt)
  /\ yielded (trace (complete r P)) = [].
Proof.
  intros Hs Hc. pose proof (get_names_not_200 r response Hs Hc) as Hg.
  unfold suggest, complete. rewrite Hg. repeat split.
Qed.

(** ** Actions *)

(** C3, as the code has it: [PutAction.execute] makes one call,
    [requests.put], on the URL [cli.path] builds from the template and the
    keywords [name], [key] and [value], with the header
    [content-type: text/plain] and without a [data=] keyword: the request
    carries no body. *)
Theorem put_request_carries_no_body (name key value : str) :
  requested (trace (execute (PutAction name key value))) =
    [ {| method := PUT;
         url := cli_path (lit "/v1/primitives/maps/{name}/{key}")
                  [(lit "name", name); (lit "key", key); (lit "value", value)];
         headers := [(lit "content-type", lit "text/plain")];
         data := None |} ]
  /\ forall req,
       In req (requested (trace (execute (PutAction name key value)))) ->
       data req <> Some value.
Proof.
  rewrite execute_requests. split; [reflexivity|].
  intros req [<- | []]. discriminate.
Qed.

(** C4, with the strings the code prints: for every action, the failure branch is taken exactly when
    the status is not 200; it prints the action's one fixed failure string
    and does not call [response.json()].  That string is the one in the
    specification's table, except for anoint, promote and evict, which print
    "Failed to anoint leader", "Failed to promote candidate" and
    "Failed to evict candidate". *)
Theorem non_200_prints_failure_message (a : action) (response : Response) :
  server (action_request a) = Ok response ->
  (status_code response <> 200 <->
   trace (execute a) =
     [Http (action_request a); Print (PStr (failure_message a))])
  /\ (status_code response <> 200 ->
      printed (trace (execute a)) = [PStr (failure_message a)] /\
      decodes_json (trace (execute a)) = false /\
      outcome (execute a) = Ok tt)
  /\ (candidate_verb a = None -> failure_message a = documented_failure a)
  /\ (forall name id,
        failure_message (AnointAction name id) = lit "Failed to anoint leader" /\
        failure_message (PromoteAction name id) = lit "Failed to promote candidate" /\
        failure_message (EvictAction name id) = lit "Failed to evict candidate").
Proof.
  intros Hs. split; [split | split; [| split]].
  - intros Hc. rewrite (execute_not_200 a response Hs Hc). reflexivity.
  - intros Ht Hc. destruct (execute_200 a response Hs Hc) as [E | [rest E]];
      rewrite E in Ht; discriminate Ht.
  - intros Hc. rewrite (execute_not_200 a response Hs Hc). repeat split.
  - destruct a; intros Hv; try discriminate Hv; reflexivity.
  - intros name id. repeat split.
Qed.

(** C5: for the map operations get, put and remove, a response with status
    200 and the empty string as its text makes the operation print nothing
    (it does not decode the body and returns normally). *)
Theorem empty_text_prints_nothing (a : action) (response : Response) :
  checks_text a = true ->
  server (action_request a) = Ok response ->
  status_code response = 200 ->
  text response = lit "" ->
  printed (trace (execute a)) = []
  /\ decodes_json (trace (execute a)) = false
  /\ outcome (execute a) = Ok tt.
Proof.
  intros Ha Hs Hc Ht.
  rewrite (execute_200_empty_text a response Ha Hs Hc Ht). repeat split.
Qed.

(** C6, with the strings the code prints: on a status other than 200, anoint prints
    "Failed to anoint leader", promote prints "Failed to promote candidate"
    and evict prints "Failed to evict candidate". *)
Theorem candidate_actions_failure_strings
    (name id : str) (response : Response) :
  status_code response <> 200 ->
  (server (action_request (AnointAction name id)) = Ok response ->
   printed (trace (execute (AnointAction name id))) =
     [PStr (lit "Failed to anoint leader")])
  /\ (server (action_request (PromoteAction name id)) = Ok response ->
      printed (trace (execute (PromoteAction name id))) =
        [PStr (lit "Failed to promote candidate")])
  /\ (server (action_request (EvictAction name id)) = Ok response ->
      printed (trace (execute (EvictAction name id))) =
        [PStr (lit "Failed to evict candidate")]).
Proof.
  intros Hc. repeat split; intros Hs;
    rewrite (execute_not_200 _ response Hs Hc); reflexivity.
Qed.

(** C8: withdraw, anoint, promote, evict and clear print nothing when the
    status is 200; what they print is at most their failure string, and they
    print it exactly when the status is not 200. *)
Theorem silent_actions_print_only_on_failure
    (a : action) (response : Response) :
  silent_on_success a = true ->
  server (action_request a) = Ok response ->
  (status_code response = 200 -> printed (trace (execute a)) = [])
  /\ (status_code response <> 200 ->
      printed (trace (execute a)) = [PStr (failure_message a)])
  /\ (printed (trace (execute a)) <> [] -> status_code response <> 200)
  /\ decodes_json (trace (execute a)) = false.
Proof.
  intros Ha Hs.
  destruct (Z.eq_dec (status_code response) 200) as [Hc | Hc].
  - rewrite (execute_200_silent a response Ha Hs Hc). cbn.
    repeat split; try reflexivity; intros Hn; now elim Hn.
  - rewrite (execute_not_200 a response Hs Hc). cbn.
    repeat split; try reflexivity; intros Hn; [now elim Hc | exact Hc].
Qed.

End Properties.

(** * Further properties of the commands *)

Section Completion.

Context {platform : Platform}.

(** ** The monad *)

Lemma bind_ext {A B : Type} (m : M A) (k k' : A -> M B) :
  (forall a, k a = k' a) -> bind m k = bind m k'.
Proof.
  intros H. destruct m as [t [a | e]]; simpl; [rewrite H|]; reflexivity.
Qed.

Lemma requested_app (t u : list event) :
  requested (t ++ u) = requested t ++ requested u.
Proof.
  induction t as [|e t IH]; simpl; [reflexivity|].
  destruct e; simpl; now rewrite IH.
Qed.

Lemma printed_app (t u : list event) :
  printed (t ++ u) = printed t ++ printed u.
Proof.
  induction t as [|e t IH]; simpl; [reflexivity|].
  destruct e; simpl; now rewrite IH.
Qed.

Lemma yields_only (names : list str) :
  requested (map (fun n => Yield (PStr n)) names) = [] /\
  printed (map (fun n => Yield (PStr n)) names) = [] /\
  decodes_json (map (fun n => Yield (PStr n)) names) = false /\
  yielded (map (fun n => Yield (PStr n)) names) = map PStr names.
Proof.
  induction names as [|n names (IH1 & IH2 & IH3 & IH4)]; simpl.
  - repeat split.
  - repeat split; try assumption. now rewrite IH4.
Qed.

(** ** The loops on arbitrary items *)

Lemma suggest_loop_items (prefix : str) (items : list pyval) :
  suggest_loop prefix items =
  ([],
   match find (matches prefix) (leading_names items) with
   | Some n => Ok (Some (skipn (length prefix) n))
   | None => if forallb is_str items then Ok None else Raise AttributeError
   end).
Proof.
  induction items as [|item rest IH]; [reflexivity|].
  destruct item; try reflexivity.
  cbn [suggest_loop leading_names find forallb is_str andb].
  unfold matches at 1. destruct (startswith (lower s) (lower prefix)).
  - reflexivity.
  - exact IH.
Qed.

Lemma complete_loop_items (prefix : str) (items : list pyval) :
  complete_loop prefix items =
  (map (fun n => Yield (PStr n)) (filter (matches prefix) (leading_names items)),
   if forallb is_str items then Ok tt else Raise AttributeError).
Proof.
  induction items as [|item rest IH]; [reflexivity|].
  destruct item; try reflexivity.
  cbn [complete_loop leading_names filter forallb is_str andb].
  unfold matches at 1. destruct (startswith (lower s) (lower prefix)).
  - rewrite IH. reflexivity.
  - exact IH.
Qed.

Lemma leading_names_strings (L : list str) :
  leading_names (map PStr L) = L /\ forallb is_str (map PStr L) = true.
Proof.
  induction L as [|n L [IH1 IH2]]; simpl; [now split|].
  now rewrite IH1, IH2.
Qed.

(** ** What [get_names] does, case by case *)

Lemma get_names_cases (r : resource) :
  get_names r =
  match server (mkRequest GET (collection_url r) [] None) with
  | Raise e => ([Http (mkRequest GET (collection_url r) [] None)], Raise e)
  | Ok response =>
      if status_code response =? 200
      then ([Http (mkRequest GET (collection_url r) [] None); JsonDecode],
            json response)
      else ([Http (mkRequest GET (collection_url r) [] None)], Ok (PList []))
  end.
Proof.
  unfold get_names, requests_get, send, bind.
  destruct (server _) as [response | e]; [| reflexivity].
  destruct (status_code response =? 200); [| reflexivity].
  unfold response_json. simpl. destruct (json response); reflexivity.
Qed.

Lemma get_names_decoded (r : resource) (v : pyval) :
  decoded r v ->
  get_names r =
  ([Http (mkRequest GET (collection_url r) [] None); JsonDecode], Ok v).
Proof.
  intros (response & Hs & Hc & Hj).
  rewrite get_names_cases, Hs, Hc, Hj. reflexivity.
Qed.

Lemma suggest_decoded_list (r : resource) (prefix : str) (items : list pyval) :
  decoded r (PList items) ->
  suggest r prefix =
  ([Http (mkRequest GET (collection_url r) [] None); JsonDecode],
   snd (suggest_loop prefix items)).
Proof.
  intros H. unfold suggest. rewrite (get_names_decoded r _ H).
  unfold bind; simpl. rewrite suggest_loop_items. reflexivity.
Qed.

Lemma complete_decoded_list (r : resource) (prefix : str) (items : list pyval) :
  decoded r (PList items) ->
  complete r prefix =
  ([Http (mkRequest GET (collection_url r) [] None); JsonDecode]
     ++ fst (complete_loop prefix items),
   snd (complete_loop prefix items)).
Proof.
  intros H. unfold complete. rewrite (get_names_decoded r _ H).
  unfold bind; simpl. rewrite complete_loop_items. reflexivity.
Qed.

Lemma leading_names_until (names : list str) (bad : pyval) (rest : list pyval) :
  is_str bad = false ->
  leading_names (map PStr names ++ bad :: rest) = names /\
  forallb is_str (map PStr names ++ bad :: rest) = false.
Proof.
  intros Hb. induction names as [|n names [IH1 IH2]]; simpl.
  - destruct bad; try discriminate Hb; now split.
  - now rewrite IH1, IH2.
Qed.

Lemma suggest_loop_prefix_ext (P P' : str) (items : list pyval) :
  lower P = lower P' -> length P = length P' ->
  suggest_loop P items = suggest_loop P' items.
Proof.
  intros Hl Hn. induction items as [|item rest IH]; [reflexivity|].
  destruct item; try reflexivity. simpl. rewrite Hl, Hn, IH. reflexivity.
Qed.

Lemma complete_loop_prefix_ext (P P' : str) (items : list pyval) :
  lower P = lower P' ->
  complete_loop P items = complete_loop P' items.
Proof.
  intros Hl. induction items as [|item rest IH]; [reflexivity|].
  destruct item; try reflexivity. simpl. rewrite Hl, IH. reflexivity.
Qed.

Lemma matches_self (n : str) : matches n n = true.
Proof. apply matches_spec. exists []. now rewrite app_nil_r. Qed.

Lemma filter_all (f : str -> bool) (L : list str) :
  (forall n, f n = true) -> filter f L = L /\ find f L = hd_error L.
Proof.
  intros H. induction L as [|n L [IH _]]; simpl; [now split|].
  rewrite (H n), IH. now split.
Qed.

(** ** Edge cases of the completion *)

(** X1: when the decoded list holds an item that is not a string,
    [complete] yields the matches among the names before that item and then
    raises [AttributeError]; the items after it are never looked at. *)
Theorem complete_raises_at_non_string
    (r : resource) (P : str) (names : list str) (bad : pyval)
    (rest : list pyval) :
  decoded r (PList (map PStr names ++ bad :: rest)) ->
  is_str bad = false ->
  yielded (trace (complete r P)) = map PStr (filter (matches P) names)
  /\ outcome (complete r P) = Raise AttributeError.
Proof.
  intros H Hb. rewrite (complete_decoded_list r P _ H), complete_loop_items.
  destruct (leading_names_until names bad rest Hb) as [-> ->].
  cbn [trace outcome fst snd yielded app].
  split; [apply yields_only | reflexivity].
Qed.

(** X2: [suggest] returns at the first match, so an item that is not a
    string matters only when no name before it matches: with a match before
    it the suffix of that match is returned, without one [AttributeError] is
    raised. *)
Theorem suggest_returns_before_non_string
    (r : resource) (P : str) (names : list str) (bad : pyval)
    (rest : list pyval) :
  decoded r (PList (map PStr names ++ bad :: rest)) ->
  is_str bad = false ->
  (forall n, find (matches P) names = Some n ->
             outcome (suggest r P) = Ok (Some (skipn (length P) n)))
  /\ (find (matches P) names = None ->
      outcome (suggest r P) = Raise AttributeError).
Proof.
  intros H Hb. rewrite (suggest_decoded_list r P _ H), suggest_loop_items.
  destruct (leading_names_until names bad rest Hb) as [-> ->].
  cbn [outcome snd]. split.
  - intros n ->. reflexivity.
  - intros ->. reflexivity.
Qed.

(** X3: when the body decodes to a JSON object instead of a list, the loops
    run over its keys (in the order the dictionary iterates them): the
    completion is offered from the keys and no exception is raised. *)
Theorem object_is_completed_from_its_keys
    (r : resource) (P : str) (entries : list (str * pyval)) :
  decoded r (PDict entries) ->
  yielded (trace (complete r P)) =
    map PStr (filter (matches P) (map fst entries))
  /\ outcome (complete r P) = Ok tt
  /\ outcome (suggest r P) =
       Ok (option_map (skipn (length P)) (find (matches P) (map fst entries))).
Proof.
  intros H. unfold suggest, complete. rewrite (get_names_decoded r _ H).
  unfold bind, iterate, ret. cbn [app].
  rewrite <- (map_map fst PStr), suggest_loop_items, complete_loop_items.
  destruct (leading_names_strings (map fst entries)) as [-> ->].
  cbn [trace outcome fst snd yielded app]. split; [apply yields_only | split].
  - reflexivity.
  - destruct (find (matches P) (map fst entries)); reflexivity.
Qed.

(** X4: when the body decodes to [null], a boolean or a number, both
    [suggest] and [complete] raise [TypeError] at the [for] statement, after
    the one GET and the decoding; nothing is yielded. *)
Theorem scalar_body_raises_type_error
    (r : resource) (P : str) (v : pyval) :
  decoded r v ->
  iterable v = false ->
  suggest r P =
    ([Http (mkRequest GET (collection_url r) [] None); JsonDecode],
     Raise TypeError)
  /\ complete r P =
    ([Http (mkRequest GET (collection_url r) [] None); JsonDecode],
     Raise TypeError).
Proof.
  intros H Hv. unfold suggest, complete. rewrite (get_names_decoded r _ H).
  destruct v; try discriminate Hv; split; reflexivity.
Qed.

(** X5: with status 200 and a body [response.json()] cannot decode, the
    exception of [response.json()] leaves [suggest] and [complete] as it is:
    unlike a status other than 200, an undecodable body is not treated as
    an empty list. *)
Theorem undecodable_body_raises
    (r : resource) (P : str) (response : Response) (e : exn) :
  server (mkRequest GET (collection_url r) [] None) = Ok response ->
  status_code response = 200 ->
  json response = Raise e ->
  suggest r P =
    ([Http (mkRequest GET (collection_url r) [] None); JsonDecode], Raise e)
  /\ complete r P =
    ([Http (mkRequest GET (collection_url r) [] None); JsonDecode], Raise e).
Proof.
  intros Hs Hc Hj. unfold suggest, complete.
  rewrite get_names_cases, Hs, Hc, Hj. split; reflexivity.
Qed.

(** X6: an exception raised by [requests.get] (the service cannot be
    reached) leaves [suggest] and [complete] as it is; nothing is decoded
    and nothing is yielded. *)
Theorem unreachable_collection_raises
    (r : resource) (P : str) (e : exn) :
  server (mkRequest GET (collection_url r) [] None) = Raise e ->
  suggest r P = ([Http (mkRequest GET (collection_url r) [] None)], Raise e)
  /\ complete r P = ([Http (mkRequest GET (collection_url r) [] None)], Raise e).
Proof.
  intros Hs. unfold suggest, complete.
  rewrite get_names_cases, Hs. split; reflexivity.
Qed.

(** X7: whatever the service answers, a call of [suggest] or [complete]
    makes exactly one HTTP call, the GET of the resource's collection with
    no headers and no body, which does not depend on the prefix; and it
    prints nothing. *)
Theorem resources_only_get_their_collection (r : resource) (P : str) :
  requested (trace (suggest r P)) = [mkRequest GET (collection_url r) [] None]
  /\ requested (trace (complete r P)) = [mkRequest GET (collection_url r) [] None]
  /\ printed (trace (suggest r P)) = []
  /\ printed (trace (complete r P)) = [].
Proof.
  unfold suggest, complete. rewrite get_names_cases.
  destruct (server _) as [response | e]; [| repeat split].
  destruct (status_code response =? 200); [| repeat split].
  destruct (json response) as [v | e]; [| repeat split].
  unfold bind, iterate, ret, raise.
  destruct v; try (repeat split; fail);
    rewrite suggest_loop_items, complete_loop_items;
    cbn [trace fst app requested printed];
    rewrite (proj1 (yields_only _)), (proj1 (proj2 (yields_only _)));
    repeat split.
Qed.

(** X8: the prefix counts only through its lowercased form: two prefixes
    with the same [lower()] give the same run of [complete], and if they
    also have the same length the same run of [suggest], whatever the
    service answers. *)
Theorem prefix_case_does_not_matter (r : resource) (P P' : str) :
  lower P = lower P' ->
  complete r P = complete r P'
  /\ (length P = length P' -> suggest r P = suggest r P').
Proof.
  intros Hl. unfold suggest, complete. split.
  - apply bind_ext. intros names. apply bind_ext. intros items.
    now apply complete_loop_prefix_ext.
  - intros Hn. apply bind_ext. intros names. apply bind_ext. intros items.
    now apply suggest_loop_prefix_ext.
Qed.

(** X9: with the empty prefix (and [lower()] of the empty string empty, as
    in Python) every fetched name matches: [complete] yields the whole list
    and [suggest] returns the first name in full, or [None] for an empty
    list. *)
Theorem empty_prefix_matches_every_name (r : resource) (L : list str) :
  lower [] = [] ->
  fetches r L ->
  yielded (trace (complete r [])) = map PStr L
  /\ outcome (suggest r []) = Ok (hd_error L).
Proof.
  intros He H.
  assert (Hall : forall n, matches [] n = true).
  { intros n. unfold matches. rewrite He. reflexivity. }
  destruct (filter_all (matches []) L Hall) as [Hf Hd].
  rewrite (yielded_complete_fetched r [] L H), (suggest_fetched r [] L H), Hf, Hd.
  split; [reflexivity|]. destruct L; reflexivity.
Qed.

(** X10: a prefix that is itself one of the fetched names always completes:
    [complete] yields that name and [suggest] does not return [None]; when
    it is the first match, [suggest] returns the empty string. *)
Theorem full_name_completes_to_itself (r : resource) (P : str) (L : list str) :
  fetches r L ->
  In P L ->
  In (PStr P) (yielded (trace (complete r P)))
  /\ (exists s, outcome (suggest r P) = Ok (Some s))
  /\ (find (matches P) L = Some P -> outcome (suggest r P) = Ok (Some [])).
Proof.
  intros H Hin.
  rewrite (yielded_complete_fetched r P L H), (suggest_fetched r P L H).
  split; [| split].
  - apply in_map, filter_In. split; [exact Hin | apply matches_self].
  - destruct (find (matches P) L) as [n|] eqn:Hf.
    + eexists. reflexivity.
    + pose proof (find_none _ _ Hf P Hin) as Hm.
      rewrite matches_self in Hm. discriminate Hm.
  - intros ->. cbn [outcome snd option_map]. now rewrite skipn_all.
Qed.

(** ** Typing more of a name *)





End Completion.

Section Actions.

Context {platform : Platform}.

(** ** The success branch *)

(** X11: on status 200, run, leader, listen, lock, unlock and size call
    [response.json()] whatever the text is (also when it is empty) and print
    exactly the decoded value; when the decoding raises, the exception
    leaves [execute] and nothing is printed. *)
Theorem json_printing_actions_on_200 (a : action) (response : Response) :
  json_printing a = true ->
  server (action_request a) = Ok response ->
  status_code response = 200 ->
  execute a =
  match json response with
  | Ok v => ([Http (action_request a); JsonDecode; Print v], Ok tt)
  | Raise e => ([Http (action_request a); JsonDecode], Raise e)
  end.
Proof.
  intros Ha Hs Hc. apply Z.eqb_eq in Hc.
  destruct a; try discriminate Ha; run_execute Hs; rewrite Hc;
    destruct (json response); reflexivity.
Qed.

(** X12: on status 200 with a text that is not empty, get, put and remove
    of a map print exactly the decoded value; when the decoding raises, the
    exception leaves [execute] and nothing is printed. *)
Theorem text_checking_actions_decode_nonempty_text
    (a : action) (response : Response) :
  checks_text a = true ->
  server (action_request a) = Ok response ->
  status_code response = 200 ->
  text response <> [] ->
  execute a =
  match json response with
  | Ok v => ([Http (action_request a); JsonDecode; Print v], Ok tt)
  | Raise e => ([Http (action_request a); JsonDecode], Raise e)
  end.
Proof.
  intros Ha Hs Hc Ht. apply Z.eqb_eq in Hc.
  assert (Hne : str_eqb (text response) (lit "") = false).
  { destruct (str_eqb (text response) (lit "")) eqn:E; [| reflexivity].
    apply str_eqb_eq in E. now elim Ht. }
  destruct a; try discriminate Ha; run_execute Hs; rewrite Hc, Hne;
    destruct (json response); reflexivity.
Qed.

(** ** What every run of an action has in common *)

(** X13: whatever the service does (any status, any body, a transport
    error), one [execute] makes exactly one HTTP call, prints at most one
    value, calls [response.json()] at most once and only after the HTTP
    call, and yields nothing. *)
Theorem one_call_at_most_one_print (a : action) :
  requested (trace (execute a)) = [action_request a]
  /\ (length (printed (trace (execute a))) <= 1)%nat
  /\ yielded (trace (execute a)) = []
  /\ exists rest,
       trace (execute a) = Http (action_request a) :: rest /\
       (decodes_json rest = true ->
        exists rest', rest = JsonDecode :: rest' /\ decodes_json rest' = false).
Proof.
  destruct a;
    unfold execute, action_request, requests_get, requests_post, requests_put,
      requests_delete, send, response_json, print, emit, ret, bind;
    match goal with
    | |- context [server ?q] => destruct (server q) as [response | e]
    end;
    try (destruct (status_code response =? 200); cbn [negb]);
    try (destruct (negb (str_eqb (text response) (lit ""))));
    try (destruct (json response));
    cbn; (repeat split; [lia | eexists; split; [reflexivity |]]);
    cbn; intros H; try discriminate H; eexists; split; reflexivity.
Qed.

(** X14: when [requests] raises (the service cannot be reached), the
    exception leaves [execute]: no action prints its failure string, or
    anything else. *)
Theorem unreachable_service_prints_nothing (a : action) (e : exn) :
  server (action_request a) = Raise e ->
  printed (trace (execute a)) = []
  /\ decodes_json (trace (execute a)) = false
  /\ outcome (execute a) = Raise e.
Proof.
  intros Hs. rewrite (execute_unreachable a e Hs). repeat split.
Qed.

(** ** Actions and resources on the same URL *)

(** X15: the candidates of an election are completed from the request
    [election {name} leader] sends: the GET of
    [/v1/primitives/elections/{name}].  On a 200 answer the value [leader]
    prints is the value whose items [CandidateResource] offers. *)
Theorem candidates_come_from_the_leader_request
    (name : str) (response : Response) (v : pyval) :
  server (action_request (LeaderAction name)) = Ok response ->
  status_code response = 200 ->
  json response = Ok v ->
  printed (trace (execute (LeaderAction name))) = [v]
  /\ get_names (CandidateResource name) =
       ([Http (action_request (LeaderAction name)); JsonDecode], Ok v)
  /\ forall P L,
       v = PList (map PStr L) ->
       yielded (trace (complete (CandidateResource name) P)) =
         map PStr (filter (matches P) L).
Proof.
  intros Hs Hc Hj. split; [| split].
  - pose proof Hs as Hs'. apply Z.eqb_eq in Hc.
    run_execute Hs'. rewrite Hc, Hj. reflexivity.
  - change (action_request (LeaderAction name))
      with (mkRequest GET (collection_url (CandidateResource name)) [] None)
      in *.
    apply get_names_decoded. exists response. repeat split; assumption.
  - intros P L ->. apply yielded_complete_fetched.
    exists response. repeat split; assumption.
Qed.

End Actions.

(** * Concrete runs *)

Lemma answering_lowers_ascii (r : result Response) :
  @lowers_ascii (answering r).
Proof. intros s _. reflexivity. Qed.

Lemma answering_fetches (r : resource) (L : list str) :
  @fetches (answering (Ok (names_response L))) r L.
Proof. exists (names_response L). repeat split. Qed.

(** The lock names "a-lock", "b-lock", "A-map" completed from "a". *)
Lemma complete_yields_matching_names_run :
  yielded (trace (@complete
    (answering (Ok (names_response [lit "a-lock"; lit "b-lock"; lit "A-map"])))
    LockResource (lit "a")))
  = [PStr (lit "a-lock"); PStr (lit "A-map")].
Proof.
  exact (proj1 (@complete_yields_matching_names
    (answering (Ok (names_response [lit "a-lock"; lit "b-lock"; lit "A-map"])))
    LockResource (lit "a") [lit "a-lock"; lit "b-lock"; lit "A-map"]
    (answering_fetches _ _))).
Defined.

(** The example of the specification, on the lock names, and a prefix that
    matches the second name only. *)
Lemma suggest_first_match_suffix_run :
  outcome (@suggest (answering (Ok (names_response [lit "a-lock"; lit "b-lock"])))
             LockResource (lit "a")) = Ok (Some (lit "-lock"))
  /\ outcome (@suggest (answering (Ok (names_response [lit "a-lock"; lit "b-lock"])))
                LockResource (lit "B-")) = Ok (Some (lit "lock")).
Proof.
  split.
  - apply (proj2 (@suggest_first_match_suffix
      (answering (Ok (names_response [lit "a-lock"; lit "b-lock"]))) LockResource)).
    + apply answering_lowers_ascii.
    + apply answering_fetches.
  - destruct (proj1 (@suggest_first_match_suffix
      (answering (Ok (names_response [lit "a-lock"; lit "b-lock"]))) LockResource)
      (lit "B-") [lit "a-lock"; lit "b-lock"] (answering_fetches _ _))
      as (Hfirst & _).
    exact (proj1 (Hfirst (lit "b-lock") eq_refl)).
Defined.

(** Keys of a map: "size" has no match among "Alpha", "beta"; "al" has. *)
Lemma suggest_agrees_with_complete_run :
  exists s,
    outcome (@suggest (answering (Ok (names_response [lit "Alpha"; lit "beta"])))
               (KeyResource (lit "m")) (lit "al")) = Ok s /\
    (s = None <->
     yielded (trace (@complete (answering (Ok (names_response [lit "Alpha"; lit "beta"])))
                       (KeyResource (lit "m")) (lit "al"))) = []) /\
    (forall suffix,
       s = Some suffix ->
       exists n rest,
         yielded (trace (@complete (answering (Ok (names_response [lit "Alpha"; lit "beta"])))
                           (KeyResource (lit "m")) (lit "al"))) = PStr n :: rest /\
         suffix = skipn (length (lit "al")) n).
Proof.
  apply (@suggest_agrees_with_complete
    (answering (Ok (names_response [lit "Alpha"; lit "beta"])))
    (KeyResource (lit "m")) (lit "al") [lit "Alpha"; lit "beta"]).
  apply answering_fetches.
Defined.

(** The election "Leaders" suggested from the prefix "lea": the suggestion
    is "ders", and "lea" followed by it is "leaders", not "Leaders". *)
Lemma suggestion_keeps_fetched_casing_run :
  outcome (@suggest (answering (Ok (names_response [lit "Leaders"])))
             ElectionResource (lit "lea")) = Ok (Some (lit "ders"))
  /\ lit "lea" ++ lit "ders" <> lit "Leaders".
Proof.
  destruct (@suggestion_keeps_fetched_casing
    (answering (Ok (names_response [lit "Leaders"])))
    ElectionResource (lit "lea") [lit "Leaders"] (lit "Leaders")
    (answering_fetches _ _) eq_refl) as (Hs & _ & Hd).
  split; [exact Hs | apply Hd; vm_compute; discriminate].
Defined.

(** The candidates of an election whose collection answers 503. *)
Lemma failed_fetch_gives_no_names_run :
  outcome (@suggest (answering (Ok (status_response 503)))
             (CandidateResource (lit "e")) (lit "n")) = Ok None
  /\ yielded (trace (@complete (answering (Ok (status_response 503)))
                       (CandidateResource (lit "e")) (lit "n"))) = [].
Proof.
  destruct (@failed_fetch_gives_no_names
    (answering (Ok (status_response 503)))
    (CandidateResource (lit "e")) (lit "n") (status_response 503)
    eq_refl ltac:(vm_compute; discriminate)) as (_ & Hs & _ & Hy).
  split; [rewrite Hs; reflexivity | exact Hy].
Defined.

(** The request [map m put k v] sends, with [format_path] for [cli.path]:
    the value "v" is nowhere in it. *)
Example put_request_run :
  requested (trace (@execute (answering (Ok (status_response 200)))
                      (PutAction (lit "m") (lit "k") (lit "v"))))
  = [ {| method := PUT;
         url := lit "/v1/primitives/maps/m/k";
         headers := [(lit "content-type", lit "text/plain")];
         data := None |} ].
Proof. vm_compute. reflexivity. Qed.

(** [lock foo lock] against a service that answers 500. *)
Lemma non_200_prints_failure_message_run :
  printed (trace (@execute (answering (Ok (status_response 500)))
                    (LockAction (lit "foo"))))
  = [PStr (lit "Failed to acquire lock")]
  /\ decodes_json (trace (@execute (answering (Ok (status_response 500)))
                            (LockAction (lit "foo")))) = false
  /\ outcome (@execute (answering (Ok (status_response 500)))
                (LockAction (lit "foo"))) = Ok tt.
Proof.
  destruct (@non_200_prints_failure_message
    (answering (Ok (status_response 500))) (LockAction (lit "foo"))
    (status_response 500) eq_refl) as (_ & Hp & _).
  apply Hp. vm_compute. discriminate.
Defined.

(** Promote on a 404: the string printed is not the "Failed to promote" of
    the specification's table. *)
Lemma promote_prints_longer_string :
  printed (trace (@execute (answering (Ok (status_response 404)))
                    (PromoteAction (lit "e") (lit "n1"))))
  = [PStr (lit "Failed to promote candidate")]
  /\ printed (trace (@execute (answering (Ok (status_response 404)))
                       (PromoteAction (lit "e") (lit "n1"))))
     <> [PStr (documented_failure (PromoteAction (lit "e") (lit "n1")))].
Proof. split; [reflexivity | vm_compute; discriminate]. Qed.

(** [map m get k] answered with 200 and an empty text. *)
Lemma empty_text_prints_nothing_run :
  printed (trace (@execute (answering (Ok (status_response 200)))
                    (GetAction (lit "m") (lit "k")))) = []
  /\ decodes_json (trace (@execute (answering (Ok (status_response 200)))
                            (GetAction (lit "m") (lit "k")))) = false
  /\ outcome (@execute (answering (Ok (status_response 200)))
                (GetAction (lit "m") (lit "k"))) = Ok tt.
Proof.
  apply (@empty_text_prints_nothing
    (answering (Ok (status_response 200))) (GetAction (lit "m") (lit "k"))
    (status_response 200)); reflexivity.
Defined.

(** Anoint on a 500. *)
Lemma candidate_actions_failure_strings_run :
  printed (trace (@execute (answering (Ok (status_response 500)))
                    (AnointAction (lit "e") (lit "n1"))))
  = [PStr (lit "Failed to anoint leader")].
Proof.
  apply (@candidate_actions_failure_strings
    (answering (Ok (status_response 500))) (lit "e") (lit "n1")
    (status_response 500) ltac:(vm_compute; discriminate)).
  reflexivity.
Defined.

(** Anoint on a 500 does not print "Failed to " followed by its verb. *)
Lemma anoint_does_not_print_failed_to_verb :
  status_code (status_response 500) <> 200
  /\ candidate_verb (AnointAction (lit "e") (lit "n1")) = Some (lit "anoint")
  /\ printed (trace (@execute (answering (Ok (status_response 500)))
                       (AnointAction (lit "e") (lit "n1"))))
     <> [PStr (lit "Failed to " ++ lit "anoint")].
Proof.
  split; [vm_compute; discriminate | split; [reflexivity | vm_compute; discriminate]].
Qed.

(** [map m clear] answered with 200, and with 500. *)
Lemma silent_actions_print_only_on_failure_run :
  printed (trace (@execute (answering (Ok (status_response 200)))
                    (ClearAction (lit "m")))) = []
  /\ printed (trace (@execute (answering (Ok (status_response 500)))
                       (ClearAction (lit "m"))))
     = [PStr (lit "Failed to clear map")].
Proof.
  split.
  - apply (@silent_actions_print_only_on_failure
      (answering (Ok (status_response 200))) (ClearAction (lit "m"))
      (status_response 200) eq_refl eq_refl).
    reflexivity.
  - apply (@silent_actions_print_only_on_failure
      (answering (Ok (status_response 500))) (ClearAction (lit "m"))
      (status_response 500) eq_refl eq_refl).
    vm_compute. discriminate.
Defined.

(** ** Concrete runs of the further properties *)

Lemma answering_decoded (r : resource) (body : str) (v : pyval) :
  @decoded (answering (Ok (json_response body v))) r v.
Proof. exists (json_response body v). repeat split. Qed.

Lemma answering_fetches_body (r : resource) (body : str) (L : list str) :
  @fetches (answering (Ok (json_response body (PList (map PStr L))))) r L.
Proof. exists (json_response body (PList (map PStr L))). repeat split. Qed.



(** The lock names "a-lock", 7, "ab": the number stops the completion. *)
Lemma complete_raises_at_non_string_run :
  yielded (trace (@complete
    (answering (Ok (json_response (lit "[..]")
       (PList [PStr (lit "a-lock"); PNum (lit "7"); PStr (lit "ab")]))))
    LockResource (lit "a")))
  = [PStr (lit "a-lock")]
  /\ outcome (@complete
    (answering (Ok (json_response (lit "[..]")
       (PList [PStr (lit "a-lock"); PNum (lit "7"); PStr (lit "ab")]))))
    LockResource (lit "a"))
  = Raise AttributeError.
Proof.
  exact (@complete_raises_at_non_string
    (answering (Ok (json_response (lit "[..]")
       (PList [PStr (lit "a-lock"); PNum (lit "7"); PStr (lit "ab")]))))
    LockResource (lit "a") [lit "a-lock"] (PNum (lit "7")) [PStr (lit "ab")]
    (answering_decoded _ _ _) eq_refl).
Defined.

(** The same names: "a" is suggested from the name before the number, "b"
    reaches the number. *)
Lemma suggest_returns_before_non_string_run :
  outcome (@suggest
    (answering (Ok (json_response (lit "[..]")
       (PList [PStr (lit "a-lock"); PNum (lit "7"); PStr (lit "ab")]))))
    LockResource (lit "a"))
  = Ok (Some (lit "-lock"))
  /\ outcome (@suggest
    (answering (Ok (json_response (lit "[..]")
       (PList [PStr (lit "a-lock"); PNum (lit "7"); PStr (lit "ab")]))))
    LockResource (lit "b"))
  = Raise AttributeError.
Proof.
  split.
  - exact (proj1 (@suggest_returns_before_non_string
      (answering (Ok (json_response (lit "[..]")
         (PList [PStr (lit "a-lock"); PNum (lit "7"); PStr (lit "ab")]))))
      LockResource (lit "a") [lit "a-lock"] (PNum (lit "7")) [PStr (lit "ab")]
      (answering_decoded _ _ _) eq_refl) (lit "a-lock") eq_refl).
  - exact (proj2 (@suggest_returns_before_non_string
      (answering (Ok (json_response (lit "[..]")
         (PList [PStr (lit "a-lock"); PNum (lit "7"); PStr (lit "ab")]))))
      LockResource (lit "b") [lit "a-lock"] (PNum (lit "7")) [PStr (lit "ab")]
      (answering_decoded _ _ _) eq_refl) eq_refl).
Defined.

(** An object with the keys "leader" and "candidates". *)
Lemma object_is_completed_from_its_keys_run :
  yielded (trace (@complete
    (answering (Ok (json_response (lit "{..}")
       (PDict [(lit "leader", PNone); (lit "candidates", PList [])]))))
    (CandidateResource (lit "e")) (lit "c")))
  = [PStr (lit "candidates")].
Proof.
  exact (proj1 (@object_is_completed_from_its_keys
    (answering (Ok (json_response (lit "{..}")
       (PDict [(lit "leader", PNone); (lit "candidates", PList [])]))))
    (CandidateResource (lit "e")) (lit "c")
    [(lit "leader", PNone); (lit "candidates", PList [])]
    (answering_decoded _ _ _))).
Defined.

(** The body [null]. *)
Lemma scalar_body_raises_type_error_run :
  outcome (@suggest (answering (Ok (json_response (lit "null") PNone)))
             MapResource (lit "m")) = Raise TypeError
  /\ outcome (@complete (answering (Ok (json_response (lit "null") PNone)))
                MapResource (lit "m")) = Raise TypeError.
Proof.
  destruct (@scalar_body_raises_type_error
    (answering (Ok (json_response (lit "null") PNone)))
    MapResource (lit "m") PNone (answering_decoded _ _ _) eq_refl) as [Hs Hc].
  rewrite Hs, Hc. split; reflexivity.
Defined.

(** Status 200 with a body that is not JSON. *)
Lemma undecodable_body_raises_run :
  outcome (@suggest (answering (Ok (status_response 200)))
             ElectionResource (lit "e")) = Raise ValueError
  /\ outcome (@complete (answering (Ok (status_response 200)))
                ElectionResource (lit "e")) = Raise ValueError.
Proof.
  destruct (@undecodable_body_raises
    (answering (Ok (status_response 200))) ElectionResource (lit "e")
    (status_response 200) ValueError eq_refl eq_refl eq_refl) as [Hs Hc].
  rewrite Hs, Hc. split; reflexivity.
Defined.

(** No service to reach. *)
Lemma unreachable_collection_raises_run :
  outcome (@suggest (answering (Raise ConnectionError))
             (KeyResource (lit "m")) (lit "k")) = Raise ConnectionError
  /\ yielded (trace (@complete (answering (Raise ConnectionError))
                       (KeyResource (lit "m")) (lit "k"))) = [].
Proof.
  destruct (@unreachable_collection_raises
    (answering (Raise ConnectionError)) (KeyResource (lit "m")) (lit "k")
    ConnectionError eq_refl) as [Hs Hc].
  rewrite Hs, Hc. split; reflexivity.
Defined.

(** The prefixes "LO" and "lo". *)
Lemma prefix_case_does_not_matter_run :
  @complete (answering (Ok (names_response [lit "Lock-1"; lit "other"])))
    LockResource (lit "LO")
  = @complete (answering (Ok (names_response [lit "Lock-1"; lit "other"])))
      LockResource (lit "lo")
  /\ @suggest (answering (Ok (names_response [lit "Lock-1"; lit "other"])))
       LockResource (lit "LO")
     = @suggest (answering (Ok (names_response [lit "Lock-1"; lit "other"])))
         LockResource (lit "lo").
Proof.
  destruct (@prefix_case_does_not_matter
    (answering (Ok (names_response [lit "Lock-1"; lit "other"])))
    LockResource (lit "LO") (lit "lo") eq_refl) as [Hc Hs].
  split; [exact Hc | exact (Hs eq_refl)].
Defined.

(** The empty prefix on two map names. *)
Lemma empty_prefix_matches_every_name_run :
  yielded (trace (@complete (answering (Ok (names_response [lit "m1"; lit "M2"])))
                    MapResource []))
  = [PStr (lit "m1"); PStr (lit "M2")]
  /\ outcome (@suggest (answering (Ok (names_response [lit "m1"; lit "M2"])))
                MapResource []) = Ok (Some (lit "m1")).
Proof.
  exact (@empty_prefix_matches_every_name
    (answering (Ok (names_response [lit "m1"; lit "M2"])))
    MapResource [lit "m1"; lit "M2"] eq_refl (answering_fetches _ _)).
Defined.

(** The full name "b-lock". *)
Lemma full_name_completes_to_itself_run :
  In (PStr (lit "b-lock"))
     (yielded (trace (@complete
        (answering (Ok (names_response [lit "a-lock"; lit "b-lock"])))
        LockResource (lit "b-lock"))))
  /\ outcome (@suggest
        (answering (Ok (names_response [lit "a-lock"; lit "b-lock"])))
        LockResource (lit "b-lock")) = Ok (Some []).
Proof.
  destruct (@full_name_completes_to_itself
    (answering (Ok (names_response [lit "a-lock"; lit "b-lock"])))
    LockResource (lit "b-lock") [lit "a-lock"; lit "b-lock"]
    (answering_fetches _ _) (or_intror (or_introl eq_refl))) as (Hc & _ & Hs).
  split; [exact Hc | exact (Hs eq_refl)].
Defined.



(** [lock foo lock] answered with 200 and the JSON number 3. *)
Lemma json_printing_actions_on_200_run :
  @execute (answering (Ok (json_response (lit "3") (PNum (lit "3")))))
    (LockAction (lit "foo"))
  = ([Http (@action_request
              (answering (Ok (json_response (lit "3") (PNum (lit "3")))))
              (LockAction (lit "foo")));
      JsonDecode; Print (PNum (lit "3"))], Ok tt).
Proof.
  exact (@json_printing_actions_on_200
    (answering (Ok (json_response (lit "3") (PNum (lit "3")))))
    (LockAction (lit "foo")) (json_response (lit "3") (PNum (lit "3")))
    eq_refl eq_refl eq_refl).
Defined.

(** [map m get k] answered with 200 and a JSON string. *)
Lemma text_checking_actions_decode_nonempty_text_run :
  printed (trace (@execute
    (answering (Ok (json_response (lit "v1") (PStr (lit "v1")))))
    (GetAction (lit "m") (lit "k"))))
  = [PStr (lit "v1")].
Proof.
  rewrite (@text_checking_actions_decode_nonempty_text
    (answering (Ok (json_response (lit "v1") (PStr (lit "v1")))))
    (GetAction (lit "m") (lit "k")) (json_response (lit "v1") (PStr (lit "v1")))
    eq_refl eq_refl eq_refl ltac:(vm_compute; discriminate)).
  reflexivity.
Defined.

(** [lock foo lock] with no service to reach. *)
Lemma unreachable_service_prints_nothing_run :
  printed (trace (@execute (answering (Raise ConnectionError))
                    (LockAction (lit "foo")))) = []
  /\ decodes_json (trace (@execute (answering (Raise ConnectionError))
                            (LockAction (lit "foo")))) = false
  /\ outcome (@execute (answering (Raise ConnectionError))
                (LockAction (lit "foo"))) = Raise ConnectionError.
Proof.
  exact (@unreachable_service_prints_nothing
    (answering (Raise ConnectionError)) (LockAction (lit "foo"))
    ConnectionError eq_refl).
Defined.

(** The election "e" with the candidates "n1", "n2". *)
Lemma candidates_come_from_the_leader_request_run :
  printed (trace (@execute
    (answering (Ok (names_response [lit "n1"; lit "n2"])))
    (LeaderAction (lit "e"))))
  = [PList [PStr (lit "n1"); PStr (lit "n2")]]
  /\ yielded (trace (@complete
       (answering (Ok (names_response [lit "n1"; lit "n2"])))
       (CandidateResource (lit "e")) (lit "n2")))
     = [PStr (lit "n2")].
Proof.
  destruct (@candidates_come_from_the_leader_request
    (answering (Ok (names_response [lit "n1"; lit "n2"])))
    (lit "e") (names_response [lit "n1"; lit "n2"])
    (PList (map PStr [lit "n1"; lit "n2"])) eq_refl eq_refl eq_refl)
    as (Hp & _ & Hy).
  split; [exact Hp | exact (Hy (lit "n2") [lit "n1"; lit "n2"] eq_refl)].
Defined.
